(** * The MATLAB proxy of the Arrow C data interface schema

    A shallow embedding of [arrow::matlab::c::proxy::Schema]
    (matlab/src/cpp/arrow/matlab/c/proxy/schema.cc): its constructor, its
    destructor, [make] and [getAddress], over a world made of the live
    proxy objects, the state of the foreign code behind release callbacks
    and the log of the foreign calls the proxy has made. *)

From Stdlib Require Import ZArith.
From stdpp Require Import gmap strings list fin_maps.

Local Open Scope Z_scope.

(** ** Pointers and the C integer types *)

(** [NULL], and [p != NULL] on pointers. *)
Definition NULL : Z := 0.

Definition is_null (p : Z) : bool := p =? NULL.

(** [reinterpret_cast<uint64_t>(p)]: the pointer value as a 64-bit unsigned
    integer, with the wrap-around of the target type written out. *)
Definition reinterpret_cast_uint64 (p : Z) : Z := p mod 2 ^ 64.

(** ** The interchange structure *)

(** Modelled from the spec: [struct ArrowSchema] is declared in
    arrow/c/abi.h, which schema.cc includes.  The fields are the ones the
    external layout lists, in that order: pointers and the callback pointer
    as addresses, [flags] and [n_children] as signed 64-bit integers. *)
Record ArrowSchema : Type := {
  format : Z;
  name : Z;
  metadata : Z;
  flags : Z;
  n_children : Z;
  children : Z;
  dictionary : Z;
  release : Z;
  private_data : Z
}.

(** [ArrowSchema{}]: value initialisation of the aggregate. *)
Definition ArrowSchema_value_init : ArrowSchema :=
  {| format := NULL; name := NULL; metadata := NULL; flags := 0;
     n_children := 0; children := NULL; dictionary := NULL;
     release := NULL; private_data := NULL |}.

(** [s.release = v] *)
Definition set_release (v : Z) (s : ArrowSchema) : ArrowSchema :=
  {| format := format s; name := name s; metadata := metadata s;
     flags := flags s; n_children := n_children s; children := children s;
     dictionary := dictionary s; release := v;
     private_data := private_data s |}.

(** ** Values of the host runtime *)

Inductive ArrayType : Type := LOGICAL | CHAR | DOUBLE | INT64 | UINT64.

(** Modelled from the spec: the values of the host runtime that travel in
    a call context.  [matlab::data::Array] is kept as element type,
    dimensions and elements. *)
Record Array : Type := {
  array_type : ArrayType;
  dimensions : list nat;
  elements : list Z
}.

(** [ArrayFactory::createScalar] at [uint64_t]: a 1-by-1 array holding an
    unsigned 64-bit integer. *)
Definition createScalar (v : Z) : Array :=
  {| array_type := UINT64; dimensions := [1%nat; 1%nat]; elements := [v] |}.

(** Modelled from the spec: the conditions reported through a context or a
    construction result ([libmexclass::error::Error]); the unknown operation
    is the one the spec names. *)
Inductive Error : Type :=
  | UnknownOperation (operation : string)
  | Failure (id message : string).

(** Modelled from the spec: the call context
    ([libmexclass::proxy::method::Context]) carries an ordered sequence of
    input values, a mutable ordered sequence of output slots, and the error
    channel. *)
Record Context : Type := {
  inputs : list Array;
  outputs : list Array;
  error : option Error
}.

Definition set_outputs (o : list Array) (c : Context) : Context :=
  {| inputs := inputs c; outputs := o; error := error c |}.

Definition set_error (e : option Error) (c : Context) : Context :=
  {| inputs := inputs c; outputs := outputs c; error := e |}.

(** [libmexclass::proxy::FunctionArguments] *)
Definition FunctionArguments : Type := list Array.

(** Modelled from the spec: the result of construction
    ([libmexclass::proxy::MakeResult]) holds either the new instance or a
    construction error. *)
Inductive MakeResult : Type :=
  | MakeProxy (proxy : Z)
  | MakeError (e : Error).

(** ** Proxy objects *)

(** The member functions a dispatch table entry can name. *)
Inductive MemberFunction : Type := Schema_getAddress_member.

(** [std::bind(&Schema::member, this, _1)] *)
Record Method : Type := {
  member : MemberFunction;
  bound_this : Z
}.

(** A [Schema] object: the [methods] table of its [Proxy] base and the
    [arrowSchema] member. *)
Record Schema : Type := {
  methods : gmap string Method;
  arrowSchema : ArrowSchema
}.

Definition set_methods (t : gmap string Method) (o : Schema) : Schema :=
  {| methods := t; arrowSchema := arrowSchema o |}.

Definition set_arrowSchema (s : ArrowSchema) (o : Schema) : Schema :=
  {| methods := methods o; arrowSchema := s |}.

(** ** Faults and results *)

Inductive Fault : Type :=
  | InvalidPointer (p : Z)
  | IndexOutOfRange (i : nat)
  | DuplicateMethod (operation : string)
  | BadAlloc.

Inductive Res (A : Type) : Type :=
  | Ok (a : A)
  | Raise (f : Fault).

Arguments Ok {A} a.
Arguments Raise {A} f.

(** The world: live [Schema] objects by address, the state of the foreign
    code that owns populated resources, and the log of the foreign calls
    (function address, argument) made so far. *)
Record World (F : Type) : Type := {
  heap : gmap Z Schema;
  foreign : F;
  calls : list (Z * Z)
}.

Arguments heap {F} w.
Arguments foreign {F} w.
Arguments calls {F} w.

(** What the proxy code is linked against.
    - [foreign_release f p s st]: the foreign function at address [f],
      called with the pointer [p] to a structure holding [s], in foreign
      state [st]; it returns what it leaves in the structure and its new
      state.
    - [offsetof_arrowSchema]: [offsetof(Schema, arrowSchema)]; the class
      layout comes from schema.h.
    - [allocator]: the storage [operator new] hands out for a [Schema] in a
      world, if any. *)
Record Platform (F : Type) : Type := {
  foreign_release : Z -> Z -> ArrowSchema -> F -> ArrowSchema * F;
  offsetof_arrowSchema : Z;
  allocator : World F -> option Z
}.

Arguments foreign_release {F} env f p s st : rename.
Arguments offsetof_arrowSchema {F} env : rename.
Arguments allocator {F} env w : rename.

Section Proxy.

Context {F : Type} (env : Platform F).

Definition set_heap (h : gmap Z Schema) (w : World F) : World F :=
  {| heap := h; foreign := foreign w; calls := calls w |}.

(** *** The monad of proxy code: state, with faults that keep the state *)

Definition M (A : Type) : Type := World F -> Res A * World F.

Definition ret {A : Type} (a : A) : M A := fun w => (Ok a, w).

Definition raise {A : Type} (f : Fault) : M A := fun w => (Raise f, w).

Definition bind {A B : Type} (m : M A) (k : A -> M B) : M B :=
  fun w =>
    match m w with
    | (Ok a, w') => k a w'
    | (Raise f, w') => (Raise f, w')
    end.

Notation "x <- m ;; k" := (bind m (fun x => k))
  (at level 100, m at next level, right associativity).
Notation "m ;;; k" := (bind m (fun _ => k))
  (at level 100, right associativity).

(** *** Memory *)

(** [&arrowSchema] of the object at [this]. *)
Definition addressof_arrowSchema (this : Z) : Z :=
  this + offsetof_arrowSchema env.

(** [*this] *)
Definition deref (this : Z) : M Schema :=
  fun w =>
    match heap w !! this with
    | Some self => (Ok self, w)
    | None => (Raise (InvalidPointer this), w)
    end.

(** [*this = self] *)
Definition store (this : Z) (self : Schema) : M unit :=
  fun w => (Ok tt, set_heap (<[this := self]> (heap w)) w).

(** [this->arrowSchema.release] *)
Definition load_release (this : Z) : M Z :=
  self <- deref this ;;
  ret (release (arrowSchema self)).

(** [this->arrowSchema.release = v] *)
Definition store_release (this : Z) (v : Z) : M unit :=
  self <- deref this ;;
  store this (set_arrowSchema (set_release v (arrowSchema self)) self).

(** [f(p)] for a release callback [f]: the call is logged, and the foreign
    code works on the structure that [p] points to. *)
Definition call_release (f p : Z) : M unit :=
  fun w =>
    let this := p - offsetof_arrowSchema env in
    match heap w !! this with
    | Some self =>
        let r := foreign_release env f p (arrowSchema self) (foreign w) in
        (Ok tt,
         {| heap := <[this := set_arrowSchema (fst r) self]> (heap w);
            foreign := snd r;
            calls := calls w ++ [(f, p)] |})
    | None => (Raise (InvalidPointer p), w)
    end.

(** [operator new] *)
Definition operator_new : M Z :=
  fun w =>
    match allocator env w with
    | Some p => (Ok p, w)
    | None => (Raise BadAlloc, w)
    end.

(** *** The [Proxy] base class *)

(** Modelled from the spec: [Proxy::registerMethod] of libmexclass, which
    the macro [REGISTER_METHOD] calls, is not part of schema.cc.  It
    associates an operation name with a bound method; a name already in
    the table is a fatal error. *)
Definition registerMethod (this : Z) (operation : string) (m : Method) : M unit :=
  self <- deref this ;;
  match methods self !! operation with
  | Some _ => raise (DuplicateMethod operation)
  | None => store this (set_methods (<[operation := m]> (methods self)) self)
  end.

(** *** The code of schema.cc *)

(** [Schema::Schema() : arrowSchema{} { REGISTER_METHOD(Schema, getAddress); }]
    on the storage at [this]; the [Proxy] base starts with an empty
    table. *)
Definition Schema_ctor (this : Z) : M unit :=
  store this {| methods := ∅; arrowSchema := ArrowSchema_value_init |} ;;;
  registerMethod this "getAddress"
    {| member := Schema_getAddress_member; bound_this := this |}.

(** [Schema::~Schema()] *)
Definition Schema_dtor (this : Z) : M unit :=
  f <- load_release this ;;
  if negb (is_null f) then
    call_release f (addressof_arrowSchema this) ;;;
    store_release this NULL
  else ret tt.

(** [std::make_shared<Schema>()] *)
Definition make_shared_Schema : M Z :=
  p <- operator_new ;;
  Schema_ctor p ;;;
  ret p.

(** [Schema::make] *)
Definition Schema_make (constructor_arguments : FunctionArguments) : M MakeResult :=
  p <- make_shared_Schema ;;
  ret (MakeProxy p).

(** [outputs[i] = v] on the output slots of a context.  The slots are a
    [matlab::mex::ArgumentList], whose subscript is checked: an index
    beyond the slots raises instead of writing. *)
Definition ArgumentList_assign (l : list Array) (i : nat) (v : Array) : M (list Array) :=
  if (i <? length l)%nat then ret (<[i := v]> l) else raise (IndexOutOfRange i).

(** [Schema::getAddress] *)
Definition Schema_getAddress (this : Z) (context : Context) : M Context :=
  let address := reinterpret_cast_uint64 (addressof_arrowSchema this) in
  outputs' <- ArgumentList_assign (outputs context) 0 (createScalar address) ;;
  ret (set_outputs outputs' context).

(** *** The generic invocation path *)

(** Calling a bound method object. *)
Definition call_method (m : Method) (context : Context) : M Context :=
  match member m with
  | Schema_getAddress_member => Schema_getAddress (bound_this m) context
  end.

(** Modelled from the spec: [Proxy::invoke] of libmexclass is not part of
    schema.cc.  It looks the name up; an absent name is reported through
    the context as an unknown operation; a present one has its bound
    method invoked with the context. *)
Definition Proxy_invoke (this : Z) (operation : string) (context : Context) : M Context :=
  self <- deref this ;;
  match methods self !! operation with
  | None => ret (set_error (Some (UnknownOperation operation)) context)
  | Some m => call_method m context
  end.

(** *** The vocabulary of the specification *)

(** The handle: the address of the resource storage's start, as an
    unsigned 64-bit integer. *)
Definition get_address (this : Z) : Z :=
  reinterpret_cast_uint64 (addressof_arrowSchema this).

(** The dispatch table a constructed instance at [this] has. *)
Definition Schema_methods (this : Z) : gmap string Method :=
  {[ "getAddress" := {| member := Schema_getAddress_member; bound_this := this |} ]}.

(** A live proxy instance: constructed storage whose table is the one the
    constructor built; the resource itself may hold anything. *)
Definition live (this : Z) (w : World F) : Prop :=
  exists self, heap w !! this = Some self /\ methods self = Schema_methods this.

(** What the host runtime does with an instance. *)
Inductive Call : Type :=
  | Invoke (operation : string) (context : Context)
  | Destroy.

(** One host call; the host goes on after a reported fault.  [Destroy]
    runs the body of the destructor, the part schema.cc writes: what
    follows it in the program, the end of the [Proxy] base with its table
    and of the storage, is not modelled, so a call after a [Destroy]
    stands for running again on the same storage. *)
Definition host_call (this : Z) (c : Call) (w : World F) : World F :=
  match c with
  | Invoke operation context => snd (Proxy_invoke this operation context w)
  | Destroy => snd (Schema_dtor this w)
  end.

Definition host_calls (this : Z) (cs : list Call) (w : World F) : World F :=
  fold_left (fun w c => host_call this c w) cs w.

(** The host calls of a life without teardown: invocations only, each a
    name and a context. *)
Definition invocations (l : list (string * Context)) : list Call :=
  map (fun i => Invoke (fst i) (snd i)) l.

(** [n] runs of a piece of proxy code in sequence. *)
Fixpoint times (n : nat) (m : M unit) : M unit :=
  match n with
  | O => ret tt
  | S n' => m ;;; times n' m
  end.

(** [n] calls of [getAddress] on one context, with what each call left in
    output slot 0. *)
Fixpoint getAddress_times (n : nat) (this : Z) (context : Context) : M (list (option Array)) :=
  match n with
  | O => ret []
  | S n' =>
      context' <- Schema_getAddress this context ;;
      rest <- getAddress_times n' this context' ;;
      ret (outputs context' !! 0%nat :: rest)
  end.

(** What a call left in output slot 0, when it returned. *)
Definition slot0 (r : Res Context * World F) : option Array :=
  match fst r with
  | Ok context => outputs context !! 0%nat
  | Raise _ => None
  end.

(** External native code writing a whole structure through an exported
    address. *)
Definition external_write (address : Z) (s : ArrowSchema) (w : World F) : World F :=
  let this := address - offsetof_arrowSchema env in
  match heap w !! this with
  | Some self => set_heap (<[this := set_arrowSchema s self]> (heap w)) w
  | None => w
  end.

(** The structure a teardown leaves to the proxy's own code: what the
    callback left, or the structure as it was when there is no callback. *)
Definition after_callback (this : Z) (s : ArrowSchema) (st : F) : ArrowSchema * F :=
  if is_null (release s) then (s, st)
  else foreign_release env (release s) (addressof_arrowSchema this) s st.

(** The world after the teardown of an instance holding a callback. *)
Definition released (this : Z) (self : Schema) (w : World F) : World F :=
  let r := foreign_release env (release (arrowSchema self))
             (addressof_arrowSchema this) (arrowSchema self) (foreign w) in
  {| heap := <[this := set_arrowSchema (set_release NULL (fst r)) self]> (heap w);
     foreign := snd r;
     calls := calls w ++ [(release (arrowSchema self), addressof_arrowSchema this)] |}.

(** The foreign call the teardown of an object makes: the call of its
    callback on its own structure, or none without a callback. *)
Definition release_call (this : Z) (self : Schema) : list (Z * Z) :=
  if is_null (release (arrowSchema self)) then []
  else [(release (arrowSchema self), addressof_arrowSchema this)].

(** The foreign calls that tearing down the objects at [ps], in that order,
    is to make in a world. *)
Definition pending_releases (ps : list Z) (w : World F) : list (Z * Z) :=
  flat_map (fun p => match heap w !! p with
                     | Some self => release_call p self
                     | None => []
                     end) ps.

(** The host destroying several instances, one after the other. *)
Fixpoint destroy_all (ps : list Z) : M unit :=
  match ps with
  | [] => ret tt
  | p :: ps' => Schema_dtor p ;;; destroy_all ps'
  end.

End Proxy.

(** ** A test platform *)

(** A release callback as a test installs it: it counts its invocations and
    frees the private data; it leaves the [release] field alone. *)
Definition counting_release (f p : Z) (s : ArrowSchema) (count : nat) : ArrowSchema * nat :=
  ({| format := format s; name := name s; metadata := metadata s;
      flags := flags s; n_children := n_children s; children := children s;
      dictionary := dictionary s; release := release s;
      private_data := NULL |},
   S count).

Definition test_platform : Platform nat :=
  {| foreign_release := counting_release;
     offsetof_arrowSchema := 64;
     allocator := fun _ => Some 4096 |}.

Definition empty_world : World nat :=
  {| heap := ∅; foreign := 0%nat; calls := [] |}.

(** The world after one [make]. *)
Definition constructed_world : World nat :=
  snd (Schema_make test_platform [] empty_world).

Definition populated_schema : ArrowSchema :=
  {| format := 8000; name := 8008; metadata := NULL; flags := 2;
     n_children := 1; children := 8016; dictionary := NULL;
     release := 9000; private_data := 7000 |}.

(** The same world once a producer has filled the structure in. *)
Definition populated_world : World nat :=
  external_write test_platform 4160 populated_schema constructed_world.

Definition constructed_object : Schema :=
  {| methods := Schema_methods 4096; arrowSchema := ArrowSchema_value_init |}.

Definition populated_object : Schema :=
  {| methods := Schema_methods 4096; arrowSchema := populated_schema |}.

Definition one_slot : Context :=
  {| inputs := []; outputs := [{| array_type := DOUBLE; dimensions := [0%nat; 0%nat]; elements := [] |}];
     error := None |}.

(** A platform whose allocator hands out a new page for every instance. *)
Definition paging_platform : Platform nat :=
  {| foreign_release := counting_release;
     offsetof_arrowSchema := 64;
     allocator := fun w => Some (4096 + 4096 * Z.of_nat (size (heap w))) |}.

(** Two instances, the first one populated. *)
Definition two_instances : World nat :=
  external_write paging_platform 4160 populated_schema
    (snd (Schema_make paging_platform []
            (snd (Schema_make paging_platform [] empty_world)))).

Definition two_slots : Context :=
  {| inputs := [createScalar 1];
     outputs := [createScalar 2; createScalar 3];
     error := Some (Failure "arrow:test" "earlier") |}.

(** A platform whose allocator has no storage left. *)
Definition exhausted_platform : Platform nat :=
  {| foreign_release := counting_release;
     offsetof_arrowSchema := 64;
     allocator := fun _ => None |}.

(** ** Properties *)

Section Properties.

Context {F : Type} (env : Platform F).

Implicit Types (this : Z) (self : Schema) (w : World F) (context : Context).

(** *** Stepping through the monad *)

Lemma bind_Ok {A B : Type} (m : M A) (k : A -> M B) w a w' :
  m w = (Ok a, w') -> bind m k w = k a w'.
Proof. intros E. unfold bind. now rewrite E. Qed.

Lemma bind_Raise {A B : Type} (m : M A) (k : A -> M B) w f w' :
  m w = (Raise f, w') -> bind m k w = (Raise f, w').
Proof. intros E. unfold bind. now rewrite E. Qed.

Lemma deref_live this self w :
  heap w !! this = Some self -> deref this w = (Ok self, w).
Proof. intros E. unfold deref. now rewrite E. Qed.

Lemma set_heap_same w : set_heap (heap w) w = w.
Proof. now destruct w. Qed.

Lemma addressof_arrowSchema_back this :
  addressof_arrowSchema env this - offsetof_arrowSchema env = this.
Proof. unfold addressof_arrowSchema. lia. Qed.

Lemma is_null_false (p : Z) : p <> NULL -> is_null p = false.
Proof. intros H. unfold is_null. now apply Z.eqb_neq. Qed.

Lemma is_null_true (p : Z) : p = NULL -> is_null p = true.
Proof. intros ->. reflexivity. Qed.

(** *** The destructor, case by case *)

Lemma Schema_dtor_null this self w :
  heap w !! this = Some self ->
  release (arrowSchema self) = NULL ->
  Schema_dtor env this w = (Ok tt, w).
Proof.
  intros Hlive Hnull. unfold Schema_dtor, load_release.
  rewrite (bind_Ok _ _ w (release (arrowSchema self)) w).
  - now rewrite is_null_true.
  - now rewrite (bind_Ok _ _ w self w) by now apply deref_live.
Qed.

Lemma Schema_dtor_set this self w :
  heap w !! this = Some self ->
  release (arrowSchema self) <> NULL ->
  Schema_dtor env this w = (Ok tt, released env this self w).
Proof.
  intros Hlive Hset. unfold Schema_dtor, load_release.
  rewrite (bind_Ok _ _ w (release (arrowSchema self)) w)
    by now rewrite (bind_Ok _ _ w self w) by now apply deref_live.
  rewrite is_null_false by assumption. cbn [negb].
  unfold bind at 1, call_release.
  rewrite addressof_arrowSchema_back, Hlive.
  unfold store_release, bind, deref, store, set_heap. cbn [heap foreign calls].
  rewrite lookup_insert_eq. cbn [heap foreign calls arrowSchema set_arrowSchema methods].
  rewrite insert_insert_eq. reflexivity.
Qed.

Lemma released_lookup this self w :
  heap (released env this self w) !! this
  = Some (set_arrowSchema
            (set_release NULL
               (fst (foreign_release env (release (arrowSchema self))
                       (addressof_arrowSchema env this) (arrowSchema self) (foreign w))))
            self).
Proof. unfold released. cbn [heap]. apply lookup_insert_eq. Qed.

Lemma Schema_dtor_released this self w :
  Schema_dtor env this (released env this self w) = (Ok tt, released env this self w).
Proof. eapply Schema_dtor_null; [apply released_lookup | reflexivity]. Qed.

Lemma Schema_dtor_live this self w :
  heap w !! this = Some self ->
  exists w',
    Schema_dtor env this w = (Ok tt, w') /\
    heap w' !! this
    = Some (set_arrowSchema
              (set_release NULL
                 (fst (after_callback env this (arrowSchema self) (foreign w))))
              self) /\
    (forall q, q <> this -> heap w' !! q = heap w !! q).
Proof.
  intros Hlive. unfold after_callback.
  destruct (Z.eq_dec (release (arrowSchema self)) NULL) as [Hnull|Hset].
  - exists w. rewrite (is_null_true _ Hnull). cbn [fst].
    split; [now apply (Schema_dtor_null this self)|]. split; [|reflexivity].
    rewrite Hlive. f_equal. destruct self as [t s]. destruct s. cbn in *.
    unfold set_arrowSchema, set_release. cbn. now subst.
  - exists (released env this self w). rewrite (is_null_false _ Hset).
    split; [now apply Schema_dtor_set|]. split; [apply released_lookup|].
    intros q Hq. unfold released. cbn [heap]. now apply lookup_insert_ne.
Qed.

(** *** [getAddress] and the invocation path *)

Lemma ArgumentList_assign_slot (l : list Array) (v : Array) w :
  (0 < length l)%nat ->
  ArgumentList_assign l 0 v w = (Ok (<[0%nat := v]> l), w).
Proof.
  intros H. unfold ArgumentList_assign.
  now rewrite (proj2 (Nat.ltb_lt _ _) H).
Qed.

Lemma set_outputs_slot (v : Array) context (i : nat) :
  (0 < length (outputs context))%nat ->
  (0 < length (outputs (set_outputs (<[i := v]> (outputs context)) context)))%nat.
Proof. intros H. cbn [outputs set_outputs]. now rewrite length_insert. Qed.

Lemma Schema_getAddress_slot this context w :
  (0 < length (outputs context))%nat ->
  Schema_getAddress env this context w
  = (Ok (set_outputs (<[0%nat := createScalar (get_address env this)]> (outputs context))
           context), w).
Proof.
  intros H. unfold Schema_getAddress.
  erewrite bind_Ok by now apply ArgumentList_assign_slot. reflexivity.
Qed.

Lemma Schema_getAddress_world this context w :
  snd (Schema_getAddress env this context w) = w.
Proof.
  unfold Schema_getAddress, bind, ArgumentList_assign, ret, raise.
  now destruct (0 <? length (outputs context))%nat.
Qed.

Lemma Schema_getAddress_result this context w w' :
  fst (Schema_getAddress env this context w)
  = fst (Schema_getAddress env this context w').
Proof.
  unfold Schema_getAddress, bind, ArgumentList_assign, ret, raise.
  now destruct (0 <? length (outputs context))%nat.
Qed.

Lemma Proxy_invoke_world this operation context w :
  snd (Proxy_invoke env this operation context w) = w.
Proof.
  unfold Proxy_invoke, bind, deref.
  destruct (heap w !! this) as [self|]; [|reflexivity].
  destruct (methods self !! operation) as [m|]; [|reflexivity].
  unfold call_method. destruct (member m). apply Schema_getAddress_world.
Qed.

Lemma Proxy_invoke_getAddress this self context w :
  heap w !! this = Some self ->
  methods self = Schema_methods this ->
  Proxy_invoke env this "getAddress" context w
  = Schema_getAddress env this context w.
Proof.
  intros Hlive Ht. unfold Proxy_invoke.
  rewrite (bind_Ok _ _ w self w) by now apply deref_live.
  rewrite Ht. unfold Schema_methods. rewrite lookup_singleton_eq. reflexivity.
Qed.

(** *** Sequences of host calls *)

Lemma host_calls_cons this (c : Call) (cs : list Call) w :
  host_calls env this (c :: cs) w = host_calls env this cs (host_call env this c w).
Proof. reflexivity. Qed.

Lemma host_call_released this self w (c : Call) :
  host_call env this c (released env this self w) = released env this self w.
Proof.
  destruct c as [operation context|]; cbn [host_call].
  - apply Proxy_invoke_world.
  - now rewrite Schema_dtor_released.
Qed.

Lemma host_calls_released this self w (cs : list Call) :
  host_calls env this cs (released env this self w) = released env this self w.
Proof.
  induction cs as [|c cs IH]; [reflexivity|].
  now rewrite host_calls_cons, host_call_released.
Qed.

Lemma host_calls_populated this self w (cs : list Call) :
  heap w !! this = Some self ->
  release (arrowSchema self) <> NULL ->
  host_calls env this cs w = w \/
  host_calls env this cs w = released env this self w.
Proof.
  intros Hlive Hset. induction cs as [|c cs IH]; [now left|].
  rewrite host_calls_cons. destruct c as [operation context|]; cbn [host_call].
  - now rewrite Proxy_invoke_world.
  - rewrite (Schema_dtor_set this self w Hlive Hset). cbn [snd].
    right. apply host_calls_released.
Qed.

Lemma times_Schema_dtor_released this self w (n : nat) :
  times n (Schema_dtor env this) (released env this self w)
  = (Ok tt, released env this self w).
Proof.
  induction n as [|n IH]; [reflexivity|]. cbn [times].
  now rewrite (bind_Ok _ _ _ _ _ (Schema_dtor_released this self w)).
Qed.

Lemma host_calls_invocations this (l : list (string * Context)) w :
  host_calls env this (invocations l) w = w.
Proof.
  induction l as [|i l IH]; [reflexivity|].
  cbn [invocations map]. rewrite host_calls_cons. cbn [host_call].
  rewrite Proxy_invoke_world. exact IH.
Qed.

(** *** Construction *)

Lemma Schema_ctor_world this w :
  Schema_ctor this w
  = (Ok tt,
     set_heap (<[this := {| methods := Schema_methods this;
                            arrowSchema := ArrowSchema_value_init |}]> (heap w)) w).
Proof.
  unfold Schema_ctor, bind, store, registerMethod, bind, deref, store, set_heap.
  cbn [heap foreign calls]. rewrite lookup_insert_eq.
  cbn [methods arrowSchema set_methods]. rewrite lookup_empty.
  cbn [heap foreign calls]. rewrite insert_insert_eq.
  unfold Schema_methods. now rewrite insert_empty.
Qed.

Lemma Schema_make_world (constructor_arguments : FunctionArguments) w (p : Z) :
  allocator env w = Some p ->
  Schema_make env constructor_arguments w
  = (Ok (MakeProxy p),
     set_heap (<[p := {| methods := Schema_methods p;
                         arrowSchema := ArrowSchema_value_init |}]> (heap w)) w).
Proof.
  intros Halloc. unfold Schema_make, make_shared_Schema.
  unfold bind at 1 2, operator_new. rewrite Halloc.
  now rewrite (bind_Ok _ _ _ _ _ (Schema_ctor_world p w)).
Qed.

Lemma Schema_methods_other this (operation : string) :
  operation <> "getAddress" -> Schema_methods this !! operation = None.
Proof. intros H. unfold Schema_methods. now apply lookup_singleton_ne. Qed.

(** *** Release discipline *)

(** C1: on an instance whose resource holds a non-null [release], the
    destructor returns, having called that callback once with the address
    of the resource itself (one entry more in the log of foreign calls,
    the foreign state advanced by that one call), and leaves [release]
    null; running it any number of further times gives the same world as
    running it once; and over any sequence of host calls on the instance
    (invocations and teardowns, in any order) the log of foreign calls
    grows by at most that one call. *)
Theorem destructor_releases_exactly_once this self w :
  heap w !! this = Some self ->
  release (arrowSchema self) <> NULL ->
  exists w1 self1,
    Schema_dtor env this w = (Ok tt, w1) /\
    calls w1 = calls w ++ [(release (arrowSchema self), addressof_arrowSchema env this)] /\
    foreign w1
    = snd (foreign_release env (release (arrowSchema self))
             (addressof_arrowSchema env this) (arrowSchema self) (foreign w)) /\
    heap w1 !! this = Some self1 /\
    release (arrowSchema self1) = NULL /\
    (forall n : nat, times (S n) (Schema_dtor env this) w = (Ok tt, w1)) /\
    (forall cs : list Call,
        calls (host_calls env this cs w) = calls w \/
        calls (host_calls env this cs w) = calls w1).
Proof.
  intros Hlive Hset. exists (released env this self w). eexists.
  split; [now apply Schema_dtor_set|].
  split; [reflexivity|].
  split; [reflexivity|].
  split; [apply released_lookup|].
  split; [reflexivity|].
  split.
  - intros n. cbn [times].
    rewrite (bind_Ok _ _ _ _ _ (Schema_dtor_set this self w Hlive Hset)).
    apply times_Schema_dtor_released.
  - intros cs.
    destruct (host_calls_populated this self w cs Hlive Hset) as [-> | ->];
      [now left | now right].
Qed.

(** C5: on an instance whose resource has a null [release], the
    destructor returns without a fault and changes nothing: no foreign
    call is logged, the foreign state and every object are as before. *)
Theorem destructor_without_release_is_noop this self w :
  heap w !! this = Some self ->
  release (arrowSchema self) = NULL ->
  Schema_dtor env this w = (Ok tt, w) /\
  calls (snd (Schema_dtor env this w)) = calls w /\
  foreign (snd (Schema_dtor env this w)) = foreign w /\
  heap (snd (Schema_dtor env this w)) = heap w.
Proof.
  intros Hlive Hnull.
  now rewrite (Schema_dtor_null this self w Hlive Hnull).
Qed.

(** C8: the destructor's own code writes the [release] field only.  The
    resource it leaves is the one the callback left (the resource as it
    was, when there is no callback) with [release] set to null: every
    other field, the dispatch table and every other object are
    untouched. *)
Theorem destructor_writes_only_release this self w :
  heap w !! this = Some self ->
  exists w' self',
    Schema_dtor env this w = (Ok tt, w') /\
    heap w' !! this = Some self' /\
    methods self' = methods self /\
    (forall q, q <> this -> heap w' !! q = heap w !! q) /\
    let s := fst (after_callback env this (arrowSchema self) (foreign w)) in
    arrowSchema self' = set_release NULL s /\
    format (arrowSchema self') = format s /\
    name (arrowSchema self') = name s /\
    metadata (arrowSchema self') = metadata s /\
    flags (arrowSchema self') = flags s /\
    n_children (arrowSchema self') = n_children s /\
    children (arrowSchema self') = children s /\
    dictionary (arrowSchema self') = dictionary s /\
    private_data (arrowSchema self') = private_data s /\
    release (arrowSchema self') = NULL.
Proof.
  intros Hlive.
  destruct (Schema_dtor_live this self w Hlive) as (w' & Hrun & Hobj & Hframe).
  exists w'. eexists. split; [exact Hrun|]. split; [exact Hobj|].
  split; [reflexivity|]. split; [exact Hframe|].
  cbn. repeat split.
Qed.

(** *** Construction *)

(** C2: the constructor returns, and in the instance it leaves at [this]
    every field of the wrapped resource is zero or null. *)
Theorem constructor_zero_initializes this w :
  exists w' self,
    Schema_ctor this w = (Ok tt, w') /\
    heap w' !! this = Some self /\
    format (arrowSchema self) = NULL /\
    name (arrowSchema self) = NULL /\
    metadata (arrowSchema self) = NULL /\
    flags (arrowSchema self) = 0 /\
    n_children (arrowSchema self) = 0 /\
    children (arrowSchema self) = NULL /\
    dictionary (arrowSchema self) = NULL /\
    release (arrowSchema self) = NULL /\
    private_data (arrowSchema self) = NULL.
Proof.
  eexists. eexists. split; [apply Schema_ctor_world|].
  split; [apply lookup_insert_eq|]. cbn. repeat split.
Qed.

(** C9: after construction the dispatch table of the instance has exactly
    one entry, ["getAddress"] bound to [getAddress] on that instance, and
    it stays so over every sequence of invocations on the instance,
    whatever the names and the contexts: no other name is registered
    while the instance is in use. *)
Theorem dispatch_table_is_getAddress_only this w (l : list (string * Context)) :
  exists self,
    heap (host_calls env this (invocations l) (snd (Schema_ctor this w))) !! this
    = Some self /\
    methods self
    = {[ "getAddress" := {| member := Schema_getAddress_member; bound_this := this |} ]} /\
    size (methods self) = 1%nat /\
    (forall operation : string,
        operation <> "getAddress" -> methods self !! operation = None).
Proof.
  rewrite host_calls_invocations, Schema_ctor_world. cbn [snd heap set_heap].
  eexists. split; [apply lookup_insert_eq|]. cbn [methods].
  split; [reflexivity|]. split; [apply map_size_singleton|].
  apply Schema_methods_other.
Qed.

(** C7: whatever the constructor arguments, [make] does not look at them
    and, given storage from the allocator that holds no instance yet,
    returns without a fault a result holding a proxy: one new instance,
    at that storage, with a zero-initialized resource and the dispatch
    table populated; nothing else in the world changes. *)
Theorem make_returns_new_zeroed_instance
    (constructor_arguments : FunctionArguments) w (p : Z) :
  allocator env w = Some p ->
  heap w !! p = None ->
  exists w',
    Schema_make env constructor_arguments w = (Ok (MakeProxy p), w') /\
    heap w' !! p
    = Some {| methods := Schema_methods p; arrowSchema := ArrowSchema_value_init |} /\
    dom (heap w') = {[ p ]} ∪ dom (heap w) /\
    size (heap w') = S (size (heap w)) /\
    (forall q, q <> p -> heap w' !! q = heap w !! q) /\
    foreign w' = foreign w /\
    calls w' = calls w /\
    (forall other_arguments : FunctionArguments,
        Schema_make env other_arguments w
        = Schema_make env constructor_arguments w).
Proof.
  intros Halloc Hfresh. eexists.
  split; [now apply Schema_make_world|]. cbn [heap foreign calls set_heap].
  split; [apply lookup_insert_eq|].
  split; [apply dom_insert_L|].
  split; [now apply map_size_insert_None|].
  split; [intros q Hq; now apply lookup_insert_ne|].
  split; [reflexivity|]. split; [reflexivity|].
  intros other_arguments.
  now rewrite !(Schema_make_world _ w p Halloc).
Qed.

(** *** Handle export and dispatch *)

(** C3: on a live instance, with a context that has an output slot 0,
    invoking ["getAddress"] through the dispatch path is the direct call
    of [getAddress]: it returns, leaves the world as it was, and output
    slot 0 holds the scalar of type [uint64] whose value is the address
    [get_address] gives, a number below [2 ^ 64]. *)
Theorem invoke_getAddress_yields_get_address this w context :
  live this w ->
  (0 < length (outputs context))%nat ->
  exists context',
    Proxy_invoke env this "getAddress" context w = (Ok context', w) /\
    Proxy_invoke env this "getAddress" context w
    = Schema_getAddress env this context w /\
    outputs context' !! 0%nat = Some (createScalar (get_address env this)) /\
    array_type (createScalar (get_address env this)) = UINT64 /\
    elements (createScalar (get_address env this)) = [get_address env this] /\
    0 <= get_address env this < 2 ^ 64.
Proof.
  intros (self & Hobj & Ht) Hslot.
  rewrite (Proxy_invoke_getAddress this self context w Hobj Ht).
  rewrite (Schema_getAddress_slot this context w Hslot).
  eexists. split; [reflexivity|]. split; [reflexivity|].
  split; [cbn [outputs set_outputs]; now apply list_lookup_insert_eq|].
  split; [reflexivity|]. split; [reflexivity|].
  unfold get_address, reinterpret_cast_uint64. apply Z.mod_pos_bound. lia.
Qed.

(** C4: invoking a name that is absent from the dispatch table of an
    instance returns without a fault; the context comes back with the
    unknown-operation error set and its inputs and outputs as they were;
    the world, and so the instance, is unchanged, and every later host
    call behaves as if the failed one had not been made. *)
Theorem invoke_unknown_operation_is_recoverable
    this self w (operation : string) context :
  heap w !! this = Some self ->
  methods self !! operation = None ->
  Proxy_invoke env this operation context w
  = (Ok (set_error (Some (UnknownOperation operation)) context), w) /\
  heap (snd (Proxy_invoke env this operation context w)) !! this = Some self /\
  (forall (later : string) context2,
      Proxy_invoke env this later context2
        (snd (Proxy_invoke env this operation context w))
      = Proxy_invoke env this later context2 w) /\
  (forall c : Call,
      host_call env this c (snd (Proxy_invoke env this operation context w))
      = host_call env this c w).
Proof.
  intros Hobj Habsent.
  assert (Proxy_invoke env this operation context w
          = (Ok (set_error (Some (UnknownOperation operation)) context), w)) as E.
  { unfold Proxy_invoke. rewrite (bind_Ok _ _ w self w) by now apply deref_live.
    now rewrite Habsent. }
  rewrite E. cbn [snd]. repeat split; assumption.
Qed.

(** C6: [getAddress] has no side effect, it leaves the world as it found
    it; with an output slot 0 in the context, [n] calls in a row all
    return the same value, [get_address] of the instance; and two calls
    on the same instance return the same value whatever the worlds and
    the contexts they are made in. *)
Theorem getAddress_is_stable_and_pure this context w :
  snd (Schema_getAddress env this context w) = w /\
  ((0 < length (outputs context))%nat ->
   (forall n : nat,
       getAddress_times env n this context w
       = (Ok (replicate n (Some (createScalar (get_address env this)))), w)) /\
   (forall w2 context2,
       (0 < length (outputs context2))%nat ->
       slot0 (Schema_getAddress env this context w)
       = slot0 (Schema_getAddress env this context2 w2))).
Proof.
  split; [apply Schema_getAddress_world|]. intros Hslot. split.
  - intros n. revert context Hslot.
    induction n as [|n IH]; intros context Hslot; [reflexivity|].
    cbn [getAddress_times replicate].
    rewrite (bind_Ok _ _ _ _ _ (Schema_getAddress_slot this context w Hslot)).
    rewrite (bind_Ok _ _ _ _ _ (IH _ (set_outputs_slot _ _ _ Hslot))).
    unfold ret. cbn [outputs set_outputs].
    now rewrite list_lookup_insert_eq.
  - intros w2 context2 Hslot2.
    rewrite (Schema_getAddress_slot this context w Hslot),
            (Schema_getAddress_slot this context2 w2 Hslot2).
    unfold slot0. cbn [fst outputs set_outputs].
    now rewrite !list_lookup_insert_eq.
Qed.

(** C10: [getAddress] writes nothing in the world and its result does not
    depend on the world it runs in, in particular not on what the wrapped
    resource holds; with an output slot 0 it returns, with the address in
    that slot, in every state of the resource: never populated, populated,
    or released. *)
Theorem getAddress_ignores_resource this context w :
  snd (Schema_getAddress env this context w) = w /\
  (forall w2,
      fst (Schema_getAddress env this context w2)
      = fst (Schema_getAddress env this context w)) /\
  (forall s : ArrowSchema,
      fst (Schema_getAddress env this context
             (external_write env (addressof_arrowSchema env this) s w))
      = fst (Schema_getAddress env this context w)) /\
  ((0 < length (outputs context))%nat ->
   exists context',
     outputs context' !! 0%nat = Some (createScalar (get_address env this)) /\
     forall w2, Schema_getAddress env this context w2 = (Ok context', w2)).
Proof.
  split; [apply Schema_getAddress_world|].
  split; [intros w2; apply Schema_getAddress_result|].
  split; [intros s; apply Schema_getAddress_result|].
  intros Hslot. eexists. split.
  2: { intros w2. now apply Schema_getAddress_slot. }
  cbn [outputs set_outputs]. now apply list_lookup_insert_eq.
Qed.

End Properties.

(** ** Further properties: handles, contexts, several instances *)

Section Lifecycle.

Context {F : Type} (env : Platform F).

Implicit Types (this : Z) (self : Schema) (w : World F) (context : Context).

(** *** Handles *)

Lemma get_address_in_range this :
  0 <= addressof_arrowSchema env this < 2 ^ 64 ->
  get_address env this = addressof_arrowSchema env this.
Proof. intros H. unfold get_address, reinterpret_cast_uint64. now apply Z.mod_small. Qed.

Lemma slot0_getAddress this context w :
  (0 < length (outputs context))%nat ->
  slot0 (Schema_getAddress env this context w)
  = Some (createScalar (get_address env this)).
Proof.
  intros Hslot. rewrite (Schema_getAddress_slot env this context w Hslot).
  unfold slot0. cbn [fst outputs set_outputs]. now apply list_lookup_insert_eq.
Qed.

(** X2: for storage inside the 64-bit address space, the number
    [getAddress] writes into output slot 0 is the address of the resource
    itself, untruncated, so the instance is recovered from it; and when
    [getAddress] on two instances leaves the same value in slot 0, they are
    the same instance. *)
Theorem handle_identifies_instance this other context context2 w w2 :
  0 <= addressof_arrowSchema env this < 2 ^ 64 ->
  0 <= addressof_arrowSchema env other < 2 ^ 64 ->
  (0 < length (outputs context))%nat ->
  (0 < length (outputs context2))%nat ->
  (exists handle : Z,
      (elements <$> slot0 (Schema_getAddress env this context w)) = Some [handle] /\
      handle = addressof_arrowSchema env this /\
      handle - offsetof_arrowSchema env = this) /\
  (slot0 (Schema_getAddress env this context w)
   = slot0 (Schema_getAddress env other context2 w2) ->
   this = other).
Proof.
  intros Hthis Hother Hslot Hslot2.
  rewrite (slot0_getAddress this context w Hslot),
          (slot0_getAddress other context2 w2 Hslot2).
  rewrite !get_address_in_range by assumption. split.
  - exists (addressof_arrowSchema env this).
    split; [reflexivity|]. split; [reflexivity|]. apply addressof_arrowSchema_back.
  - intros E. injection E as E. unfold addressof_arrowSchema in E. lia.
Qed.

(** *** The context around [getAddress] *)

(** X1: with an output slot 0, [getAddress] returns a context that differs
    from the one it got in that slot only: the inputs, the error channel,
    the number of output slots and every other slot are as they were. *)
Theorem getAddress_writes_only_slot0 this context w :
  (0 < length (outputs context))%nat ->
  exists context',
    Schema_getAddress env this context w = (Ok context', w) /\
    inputs context' = inputs context /\
    error context' = error context /\
    length (outputs context') = length (outputs context) /\
    (forall i : nat, i <> 0%nat -> outputs context' !! i = outputs context !! i).
Proof.
  intros Hslot. eexists. split; [now apply Schema_getAddress_slot|].
  cbn [inputs error outputs set_outputs].
  split; [reflexivity|]. split; [reflexivity|].
  split; [apply length_insert|].
  intros i Hi. now apply list_lookup_insert_ne.
Qed.

(** *** Teardown, in general *)

Lemma Schema_dtor_calls this self w :
  heap w !! this = Some self ->
  exists w' self',
    Schema_dtor env this w = (Ok tt, w') /\
    calls w' = calls w ++ release_call env this self /\
    heap w' !! this = Some self' /\
    release (arrowSchema self') = NULL /\
    (forall q, q <> this -> heap w' !! q = heap w !! q).
Proof.
  intros Hlive. unfold release_call.
  destruct (Z.eq_dec (release (arrowSchema self)) NULL) as [Hnull|Hset].
  - exists w, self. rewrite (is_null_true _ Hnull), app_nil_r.
    split; [now apply (Schema_dtor_null env this self)|]. repeat split; assumption.
  - exists (released env this self w). eexists. rewrite (is_null_false _ Hset).
    split; [now apply Schema_dtor_set|]. split; [reflexivity|].
    split; [apply released_lookup|]. split; [reflexivity|].
    intros q Hq. unfold released. cbn [heap]. now apply lookup_insert_ne.
Qed.

(** X3: for storage inside the 64-bit address space, the pointer the
    destructor hands to the release callback is the integer [getAddress]
    exports: the logged call has the handle as its argument, and the
    element of the scalar in output slot 0 is that same number. *)
Theorem release_receives_exported_handle this self w context :
  heap w !! this = Some self ->
  release (arrowSchema self) <> NULL ->
  0 <= addressof_arrowSchema env this < 2 ^ 64 ->
  (0 < length (outputs context))%nat ->
  exists handle : Z,
    (elements <$> slot0 (Schema_getAddress env this context w)) = Some [handle] /\
    calls (snd (Schema_dtor env this w))
    = calls w ++ [(release (arrowSchema self), handle)].
Proof.
  intros Hlive Hset Hrange Hslot. exists (get_address env this). split.
  - rewrite (Schema_getAddress_slot env this context w Hslot). unfold slot0.
    cbn [fst outputs set_outputs]. now rewrite list_lookup_insert_eq.
  - rewrite (Schema_dtor_set env this self w Hlive Hset). cbn [snd released calls].
    now rewrite get_address_in_range.
Qed.

Lemma external_write_handle this self w (s : ArrowSchema) :
  heap w !! this = Some self ->
  0 <= addressof_arrowSchema env this < 2 ^ 64 ->
  external_write env (get_address env this) s w
  = set_heap (<[this := set_arrowSchema s self]> (heap w)) w.
Proof.
  intros Hlive Hrange. unfold external_write.
  rewrite get_address_in_range by assumption.
  now rewrite addressof_arrowSchema_back, Hlive.
Qed.

(** X7: the whole life of a resource, for storage inside the 64-bit
    address space.  A producer that writes a structure through the number
    [getAddress] left in output slot 0 writes the resource of that very
    instance; when the structure it leaves has a callback in [release],
    the destructor then calls exactly that callback, once, with that
    number, on the structure as the producer left it, and ends with what
    the callback left and [release] null. *)
Theorem populated_through_handle_is_released this self w context (s : ArrowSchema) :
  heap w !! this = Some self ->
  0 <= addressof_arrowSchema env this < 2 ^ 64 ->
  (0 < length (outputs context))%nat ->
  release s <> NULL ->
  exists (handle : Z) w' self',
    (elements <$> slot0 (Schema_getAddress env this context w)) = Some [handle] /\
    (arrowSchema <$> heap (external_write env handle s w) !! this) = Some s /\
    Schema_dtor env this (external_write env handle s w) = (Ok tt, w') /\
    calls w' = calls w ++ [(release s, handle)] /\
    foreign w' = snd (foreign_release env (release s) handle s (foreign w)) /\
    heap w' !! this = Some self' /\
    arrowSchema self'
    = set_release NULL (fst (foreign_release env (release s) handle s (foreign w))).
Proof.
  intros Hlive Hrange Hslot Hset.
  exists (get_address env this). eexists. eexists.
  split; [now rewrite (slot0_getAddress this context w Hslot)|].
  rewrite (external_write_handle this self w s Hlive Hrange).
  rewrite (get_address_in_range this Hrange).
  split; [cbn [heap set_heap]; now rewrite lookup_insert_eq|].
  split.
  { apply (Schema_dtor_set env this (set_arrowSchema s self)); [apply lookup_insert_eq|exact Hset]. }
  split; [reflexivity|]. split; [reflexivity|].
  split; [apply released_lookup|]. reflexivity.
Qed.

(** *** Construction, composed *)

(** X6: whatever the arguments and whatever the allocator does, [make]
    never returns the error alternative of its result type, calls no
    foreign code and leaves the foreign state alone; when the allocator
    has no storage it raises and leaves the world exactly as it was. *)
Theorem make_never_reports_error (constructor_arguments : FunctionArguments) w :
  (forall e : Error,
      fst (Schema_make env constructor_arguments w) <> Ok (MakeError e)) /\
  calls (snd (Schema_make env constructor_arguments w)) = calls w /\
  foreign (snd (Schema_make env constructor_arguments w)) = foreign w /\
  (allocator env w = None ->
   Schema_make env constructor_arguments w = (Raise BadAlloc, w)).
Proof.
  destruct (allocator env w) as [p|] eqn:Halloc.
  - rewrite (Schema_make_world env constructor_arguments w p Halloc).
    cbn [fst snd set_heap calls foreign]. repeat split; [|discriminate].
    intros e; discriminate.
  - assert (Schema_make env constructor_arguments w = (Raise BadAlloc, w)) as E.
    { unfold Schema_make, make_shared_Schema, bind, operator_new. now rewrite Halloc. }
    rewrite E. cbn [fst snd]. repeat split. intros e; discriminate.
Qed.

(** X4: an instance that is made and never populated is torn down without
    any foreign call: the destructor, run on what [make] returned, leaves
    the world as [make] left it. *)
Theorem make_then_teardown_is_silent (constructor_arguments : FunctionArguments) w (p : Z) :
  allocator env w = Some p ->
  bind (Schema_make env constructor_arguments)
       (fun r => match r with
                 | MakeProxy proxy => Schema_dtor env proxy
                 | MakeError _ => ret tt
                 end) w
  = (Ok tt, snd (Schema_make env constructor_arguments w)) /\
  calls (snd (Schema_make env constructor_arguments w)) = calls w.
Proof.
  intros Halloc.
  rewrite (bind_Ok _ _ _ _ _ (Schema_make_world env constructor_arguments w p Halloc)).
  rewrite (Schema_make_world env constructor_arguments w p Halloc). cbn [snd].
  split; [|reflexivity].
  eapply Schema_dtor_null; [apply lookup_insert_eq|reflexivity].
Qed.

(** X8: two calls of [make], each given unused storage, give two distinct
    instances, both live; the second leaves the first as it was, and for
    storage inside the 64-bit address space their handles differ. *)
Theorem make_twice_gives_distinct_instances
    (first_arguments second_arguments : FunctionArguments) w (p1 p2 : Z) :
  allocator env w = Some p1 ->
  heap w !! p1 = None ->
  allocator env (snd (Schema_make env first_arguments w)) = Some p2 ->
  heap (snd (Schema_make env first_arguments w)) !! p2 = None ->
  exists w2,
    bind (Schema_make env first_arguments)
         (fun r1 => bind (Schema_make env second_arguments)
                         (fun r2 => ret (r1, r2))) w
    = (Ok (MakeProxy p1, MakeProxy p2), w2) /\
    p1 <> p2 /\
    live p1 w2 /\
    live p2 w2 /\
    heap w2 !! p1 = heap (snd (Schema_make env first_arguments w)) !! p1 /\
    (0 <= addressof_arrowSchema env p1 < 2 ^ 64 ->
     0 <= addressof_arrowSchema env p2 < 2 ^ 64 ->
     get_address env p1 <> get_address env p2).
Proof.
  intros Halloc1 Hfresh1.
  rewrite (Schema_make_world env first_arguments w p1 Halloc1). cbn [snd].
  intros Halloc2 Hfresh2.
  assert (p1 <> p2) as Hne.
  { intros ->. cbn [heap set_heap] in Hfresh2.
    rewrite lookup_insert_eq in Hfresh2. discriminate. }
  eexists. split.
  { rewrite (bind_Ok _ _ _ _ _ (Schema_make_world env first_arguments w p1 Halloc1)).
    rewrite (bind_Ok _ _ _ _ _ (Schema_make_world env second_arguments _ p2 Halloc2)).
    reflexivity. }
  unfold live. cbn [heap set_heap].
  split; [exact Hne|].
  split.
  { exists {| methods := Schema_methods p1; arrowSchema := ArrowSchema_value_init |}.
    split; [|reflexivity].
    rewrite lookup_insert_ne by congruence. apply lookup_insert_eq. }
  split.
  { eexists. split; [apply lookup_insert_eq|reflexivity]. }
  split; [now rewrite lookup_insert_ne by congruence|].
  intros H1 H2 E. apply Hne.
  rewrite !get_address_in_range in E by assumption.
  unfold addressof_arrowSchema in E. lia.
Qed.

(** *** Several instances *)

Lemma pending_releases_agree (ps : list Z) w w' :
  (forall q, q ∈ ps -> heap w' !! q = heap w !! q) ->
  pending_releases env ps w' = pending_releases env ps w.
Proof.
  induction ps as [|p ps IH]; intros Hagree; [reflexivity|].
  cbn [pending_releases flat_map].
  rewrite (Hagree p) by apply list_elem_of_here.
  f_equal. apply IH. intros q Hq. apply Hagree. now apply list_elem_of_further.
Qed.

(** X5: tearing down several distinct live instances in a row returns
    without a fault; the foreign calls it makes are exactly the callbacks
    of the populated ones among them, each once, on its own resource, in
    the order of teardown; afterwards every one of them has a null
    [release], and the objects outside the list are untouched. *)
Theorem destroy_all_releases_each_once (ps : list Z) : forall w,
  NoDup ps ->
  Forall (fun p => is_Some (heap w !! p)) ps ->
  exists w',
    destroy_all env ps w = (Ok tt, w') /\
    calls w' = calls w ++ pending_releases env ps w /\
    Forall (fun p => exists self', heap w' !! p = Some self' /\
                                   release (arrowSchema self') = NULL) ps /\
    (forall q, q ∉ ps -> heap w' !! q = heap w !! q).
Proof.
  induction ps as [|p ps IH]; intros w Hnodup Hlive.
  - exists w. cbn [destroy_all pending_releases flat_map]. rewrite app_nil_r.
    repeat split. constructor.
  - apply NoDup_cons in Hnodup as [Hp Hnodup].
    apply Forall_cons in Hlive as [[self Hself] Hlive].
    destruct (Schema_dtor_calls p self w Hself)
      as (w1 & self1 & Hrun & Hcalls & Hobj & Hnull & Hframe).
    assert (forall q, q ∈ ps -> heap w1 !! q = heap w !! q) as Hagree.
    { intros q Hq. apply Hframe. intros ->. contradiction. }
    destruct (IH w1 Hnodup) as (w' & Hrun' & Hcalls' & Hnull' & Hframe').
    { apply Forall_forall. intros q Hq. rewrite (Hagree q Hq).
      now apply (proj1 (Forall_forall _ _) Hlive). }
    exists w'. split.
    { cbn [destroy_all]. now rewrite (bind_Ok _ _ _ _ _ Hrun). }
    split.
    { rewrite Hcalls', Hcalls, (pending_releases_agree ps w w1 Hagree).
      cbn [pending_releases flat_map]. rewrite Hself. now rewrite app_assoc. }
    split.
    { apply Forall_cons. split; [|exact Hnull'].
      exists self1. split; [|exact Hnull]. now rewrite (Hframe' p Hp). }
    intros q Hq. apply not_elem_of_cons in Hq as [Hqp Hq].
    rewrite (Hframe' q Hq). now apply Hframe.
Qed.

End Lifecycle.

(** ** The scenarios of the specification, run *)

(** Construct, read the handle, destroy twice. *)
Example scenario_construct :
  Schema_make test_platform [] empty_world = (Ok (MakeProxy 4096), constructed_world) /\
  heap constructed_world !! 4096 = Some constructed_object.
Proof. split; vm_compute; reflexivity. Qed.

Example scenario_handle :
  slot0 (Proxy_invoke test_platform 4096 "getAddress" one_slot constructed_world)
  = Some (createScalar 4160) /\
  get_address test_platform 4096 = 4160.
Proof. split; vm_compute; reflexivity. Qed.

Example scenario_destroy_twice_unpopulated :
  times 2 (Schema_dtor test_platform 4096) constructed_world = (Ok tt, constructed_world).
Proof. vm_compute; reflexivity. Qed.

(** Populate with a counting callback, destroy: one call, [release] null. *)
Example scenario_destroy_populated :
  let w := snd (Schema_dtor test_platform 4096 populated_world) in
  fst (Schema_dtor test_platform 4096 populated_world) = Ok tt /\
  calls w = [(9000, 4160)] /\
  foreign w = 1%nat /\
  (release <$> (arrowSchema <$> heap w !! 4096)) = Some NULL /\
  (format <$> (arrowSchema <$> heap w !! 4096)) = Some 8000 /\
  snd (times 3 (Schema_dtor test_platform 4096) populated_world) = w.
Proof. vm_compute. repeat split; reflexivity. Qed.

(** The faults of the model. *)
Example fault_no_output_slot :
  fst (Proxy_invoke test_platform 4096 "getAddress" (set_outputs [] one_slot) constructed_world)
  = Raise (IndexOutOfRange 0).
Proof. vm_compute; reflexivity. Qed.

Example fault_no_object :
  fst (Schema_dtor test_platform 4096 empty_world) = Raise (InvalidPointer 4096).
Proof. vm_compute; reflexivity. Qed.

Example fault_duplicate_method :
  fst (registerMethod 4096 "getAddress"
         {| member := Schema_getAddress_member; bound_this := 4096 |} constructed_world)
  = Raise (DuplicateMethod "getAddress").
Proof. vm_compute; reflexivity. Qed.

Example fault_allocation :
  fst (Schema_make
         {| foreign_release := counting_release; offsetof_arrowSchema := 64;
            allocator := fun _ => None |} [] empty_world)
  = Raise BadAlloc.
Proof. vm_compute; reflexivity. Qed.

(** ** The properties at the test platform *)

Lemma destructor_releases_exactly_once_witness :
  heap populated_world !! 4096 = Some populated_object /\
  release (arrowSchema populated_object) <> NULL /\
  exists w1 self1,
    Schema_dtor test_platform 4096 populated_world = (Ok tt, w1) /\
    calls w1
    = calls populated_world
      ++ [(release (arrowSchema populated_object),
           addressof_arrowSchema test_platform 4096)] /\
    foreign w1
    = snd (foreign_release test_platform (release (arrowSchema populated_object))
             (addressof_arrowSchema test_platform 4096) (arrowSchema populated_object)
             (foreign populated_world)) /\
    heap w1 !! 4096 = Some self1 /\
    release (arrowSchema self1) = NULL /\
    (forall n : nat,
        times (S n) (Schema_dtor test_platform 4096) populated_world = (Ok tt, w1)) /\
    (forall cs : list Call,
        calls (host_calls test_platform 4096 cs populated_world) = calls populated_world \/
        calls (host_calls test_platform 4096 cs populated_world) = calls w1).
Proof.
  split; [vm_compute; reflexivity|].
  split; [vm_compute; lia|].
  apply (destructor_releases_exactly_once test_platform 4096 populated_object populated_world).
  - vm_compute; reflexivity.
  - vm_compute; lia.
Defined.

Lemma destructor_without_release_is_noop_witness :
  heap constructed_world !! 4096 = Some constructed_object /\
  release (arrowSchema constructed_object) = NULL /\
  Schema_dtor test_platform 4096 constructed_world = (Ok tt, constructed_world) /\
  calls (snd (Schema_dtor test_platform 4096 constructed_world)) = calls constructed_world /\
  foreign (snd (Schema_dtor test_platform 4096 constructed_world)) = foreign constructed_world /\
  heap (snd (Schema_dtor test_platform 4096 constructed_world)) = heap constructed_world.
Proof.
  split; [vm_compute; reflexivity|].
  split; [reflexivity|].
  apply (destructor_without_release_is_noop test_platform 4096 constructed_object
           constructed_world).
  - vm_compute; reflexivity.
  - reflexivity.
Defined.

Lemma destructor_writes_only_release_witness :
  heap populated_world !! 4096 = Some populated_object /\
  exists w' self',
    Schema_dtor test_platform 4096 populated_world = (Ok tt, w') /\
    heap w' !! 4096 = Some self' /\
    methods self' = methods populated_object /\
    (forall q, q <> 4096 -> heap w' !! q = heap populated_world !! q) /\
    let s := fst (after_callback test_platform 4096 (arrowSchema populated_object)
                    (foreign populated_world)) in
    arrowSchema self' = set_release NULL s /\
    format (arrowSchema self') = format s /\
    name (arrowSchema self') = name s /\
    metadata (arrowSchema self') = metadata s /\
    flags (arrowSchema self') = flags s /\
    n_children (arrowSchema self') = n_children s /\
    children (arrowSchema self') = children s /\
    dictionary (arrowSchema self') = dictionary s /\
    private_data (arrowSchema self') = private_data s /\
    release (arrowSchema self') = NULL.
Proof.
  split; [vm_compute; reflexivity|].
  apply (destructor_writes_only_release test_platform 4096 populated_object populated_world).
  vm_compute; reflexivity.
Defined.

Lemma make_returns_new_zeroed_instance_witness :
  allocator test_platform empty_world = Some 4096 /\
  heap empty_world !! 4096 = None /\
  exists w',
    Schema_make test_platform [createScalar 7] empty_world = (Ok (MakeProxy 4096), w') /\
    heap w' !! 4096
    = Some {| methods := Schema_methods 4096; arrowSchema := ArrowSchema_value_init |} /\
    dom (heap w') = {[ 4096 ]} ∪ dom (heap empty_world) /\
    size (heap w') = S (size (heap empty_world)) /\
    (forall q, q <> 4096 -> heap w' !! q = heap empty_world !! q) /\
    foreign w' = foreign empty_world /\
    calls w' = calls empty_world /\
    (forall other_arguments : FunctionArguments,
        Schema_make test_platform other_arguments empty_world
        = Schema_make test_platform [createScalar 7] empty_world).
Proof.
  split; [reflexivity|].
  split; [vm_compute; reflexivity|].
  apply (make_returns_new_zeroed_instance test_platform [createScalar 7] empty_world 4096).
  - reflexivity.
  - vm_compute; reflexivity.
Defined.

Lemma invoke_getAddress_yields_get_address_witness :
  live 4096 populated_world /\
  (0 < length (outputs one_slot))%nat /\
  exists context',
    Proxy_invoke test_platform 4096 "getAddress" one_slot populated_world
    = (Ok context', populated_world) /\
    Proxy_invoke test_platform 4096 "getAddress" one_slot populated_world
    = Schema_getAddress test_platform 4096 one_slot populated_world /\
    outputs context' !! 0%nat = Some (createScalar (get_address test_platform 4096)) /\
    array_type (createScalar (get_address test_platform 4096)) = UINT64 /\
    elements (createScalar (get_address test_platform 4096))
    = [get_address test_platform 4096] /\
    0 <= get_address test_platform 4096 < 2 ^ 64.
Proof.
  assert (live 4096 populated_world) as Hlive.
  { exists populated_object. split; vm_compute; reflexivity. }
  assert (0 < length (outputs one_slot))%nat as Hslot by (vm_compute; lia).
  split; [exact Hlive|]. split; [exact Hslot|].
  exact (invoke_getAddress_yields_get_address test_platform 4096 populated_world one_slot
           Hlive Hslot).
Defined.

Lemma invoke_unknown_operation_is_recoverable_witness :
  heap populated_world !! 4096 = Some populated_object /\
  methods populated_object !! "release" = None /\
  Proxy_invoke test_platform 4096 "release" one_slot populated_world
  = (Ok (set_error (Some (UnknownOperation "release")) one_slot), populated_world) /\
  heap (snd (Proxy_invoke test_platform 4096 "release" one_slot populated_world)) !! 4096
  = Some populated_object /\
  (forall (later : string) context2,
      Proxy_invoke test_platform 4096 later context2
        (snd (Proxy_invoke test_platform 4096 "release" one_slot populated_world))
      = Proxy_invoke test_platform 4096 later context2 populated_world) /\
  (forall c : Call,
      host_call test_platform 4096 c
        (snd (Proxy_invoke test_platform 4096 "release" one_slot populated_world))
      = host_call test_platform 4096 c populated_world).
Proof.
  split; [vm_compute; reflexivity|].
  split; [vm_compute; reflexivity|].
  apply (invoke_unknown_operation_is_recoverable test_platform 4096 populated_object
           populated_world "release" one_slot).
  - vm_compute; reflexivity.
  - vm_compute; reflexivity.
Defined.

Lemma getAddress_is_stable_and_pure_witness :
  (0 < length (outputs one_slot))%nat /\
  snd (Schema_getAddress test_platform 4096 one_slot populated_world) = populated_world /\
  (forall n : nat,
      getAddress_times test_platform n 4096 one_slot populated_world
      = (Ok (replicate n (Some (createScalar (get_address test_platform 4096)))),
         populated_world)) /\
  (forall (w2 : World nat) context2,
      (0 < length (outputs context2))%nat ->
      slot0 (Schema_getAddress test_platform 4096 one_slot populated_world)
      = slot0 (Schema_getAddress test_platform 4096 context2 w2)).
Proof.
  assert (0 < length (outputs one_slot))%nat as Hslot by (vm_compute; lia).
  split; [exact Hslot|].
  destruct (getAddress_is_stable_and_pure test_platform 4096 one_slot populated_world)
    as [Hpure Hstable].
  split; [exact Hpure|]. exact (Hstable Hslot).
Defined.

Lemma getAddress_ignores_resource_witness :
  (0 < length (outputs one_slot))%nat /\
  snd (Schema_getAddress test_platform 4096 one_slot constructed_world) = constructed_world /\
  (forall w2 : World nat,
      fst (Schema_getAddress test_platform 4096 one_slot w2)
      = fst (Schema_getAddress test_platform 4096 one_slot constructed_world)) /\
  (forall s : ArrowSchema,
      fst (Schema_getAddress test_platform 4096 one_slot
             (external_write test_platform (addressof_arrowSchema test_platform 4096) s
                constructed_world))
      = fst (Schema_getAddress test_platform 4096 one_slot constructed_world)) /\
  exists context',
    outputs context' !! 0%nat = Some (createScalar (get_address test_platform 4096)) /\
    forall w2 : World nat,
      Schema_getAddress test_platform 4096 one_slot w2 = (Ok context', w2).
Proof.
  assert (0 < length (outputs one_slot))%nat as Hslot by (vm_compute; lia).
  split; [exact Hslot|].
  destruct (getAddress_ignores_resource test_platform 4096 one_slot constructed_world)
    as (Hw & Hread & Hfields & Hsafe).
  split; [exact Hw|]. split; [exact Hread|]. split; [exact Hfields|].
  exact (Hsafe Hslot).
Defined.

Lemma getAddress_writes_only_slot0_witness :
  (0 < length (outputs two_slots))%nat /\
  exists context',
    Schema_getAddress test_platform 4096 two_slots populated_world
    = (Ok context', populated_world) /\
    inputs context' = inputs two_slots /\
    error context' = error two_slots /\
    length (outputs context') = length (outputs two_slots) /\
    (forall i : nat, i <> 0%nat -> outputs context' !! i = outputs two_slots !! i).
Proof.
  assert (0 < length (outputs two_slots))%nat as Hslot by (vm_compute; lia).
  split; [exact Hslot|].
  exact (getAddress_writes_only_slot0 test_platform 4096 two_slots populated_world Hslot).
Defined.

Lemma handle_identifies_instance_witness :
  0 <= addressof_arrowSchema test_platform 4096 < 2 ^ 64 /\
  0 <= addressof_arrowSchema test_platform 8192 < 2 ^ 64 /\
  (0 < length (outputs one_slot))%nat /\
  (0 < length (outputs two_slots))%nat /\
  (exists handle : Z,
      (elements <$> slot0 (Schema_getAddress test_platform 4096 one_slot populated_world))
      = Some [handle] /\
      handle = addressof_arrowSchema test_platform 4096 /\
      handle - offsetof_arrowSchema test_platform = 4096) /\
  (slot0 (Schema_getAddress test_platform 4096 one_slot populated_world)
   = slot0 (Schema_getAddress test_platform 8192 two_slots constructed_world) ->
   4096 = 8192).
Proof.
  assert (0 <= addressof_arrowSchema test_platform 4096 < 2 ^ 64) as H1
    by (vm_compute; split; [discriminate|reflexivity]).
  assert (0 <= addressof_arrowSchema test_platform 8192 < 2 ^ 64) as H2
    by (vm_compute; split; [discriminate|reflexivity]).
  assert (0 < length (outputs one_slot))%nat as Hslot by (vm_compute; lia).
  assert (0 < length (outputs two_slots))%nat as Hslot2 by (vm_compute; lia).
  split; [exact H1|]. split; [exact H2|]. split; [exact Hslot|]. split; [exact Hslot2|].
  exact (handle_identifies_instance test_platform 4096 8192 one_slot two_slots
           populated_world constructed_world H1 H2 Hslot Hslot2).
Defined.

Lemma release_receives_exported_handle_witness :
  heap populated_world !! 4096 = Some populated_object /\
  release (arrowSchema populated_object) <> NULL /\
  0 <= addressof_arrowSchema test_platform 4096 < 2 ^ 64 /\
  (0 < length (outputs one_slot))%nat /\
  exists handle : Z,
    (elements <$> slot0 (Schema_getAddress test_platform 4096 one_slot populated_world))
    = Some [handle] /\
    calls (snd (Schema_dtor test_platform 4096 populated_world))
    = calls populated_world ++ [(release (arrowSchema populated_object), handle)].
Proof.
  assert (0 <= addressof_arrowSchema test_platform 4096 < 2 ^ 64) as Hrange
    by (vm_compute; split; [discriminate|reflexivity]).
  assert (0 < length (outputs one_slot))%nat as Hslot by (vm_compute; lia).
  split; [vm_compute; reflexivity|].
  split; [vm_compute; lia|].
  split; [exact Hrange|]. split; [exact Hslot|].
  apply (release_receives_exported_handle test_platform 4096 populated_object
           populated_world one_slot).
  - vm_compute; reflexivity.
  - vm_compute; lia.
  - exact Hrange.
  - exact Hslot.
Defined.

Lemma populated_through_handle_is_released_witness :
  heap constructed_world !! 4096 = Some constructed_object /\
  0 <= addressof_arrowSchema test_platform 4096 < 2 ^ 64 /\
  (0 < length (outputs one_slot))%nat /\
  release populated_schema <> NULL /\
  exists (handle : Z) w' self',
    (elements <$> slot0 (Schema_getAddress test_platform 4096 one_slot constructed_world))
    = Some [handle] /\
    (arrowSchema <$> heap (external_write test_platform handle populated_schema
                             constructed_world) !! 4096)
    = Some populated_schema /\
    Schema_dtor test_platform 4096
      (external_write test_platform handle populated_schema constructed_world)
    = (Ok tt, w') /\
    calls w' = calls constructed_world ++ [(release populated_schema, handle)] /\
    foreign w'
    = snd (foreign_release test_platform (release populated_schema) handle
             populated_schema (foreign constructed_world)) /\
    heap w' !! 4096 = Some self' /\
    arrowSchema self'
    = set_release NULL
        (fst (foreign_release test_platform (release populated_schema) handle
                populated_schema (foreign constructed_world))).
Proof.
  assert (0 <= addressof_arrowSchema test_platform 4096 < 2 ^ 64) as Hrange
    by (vm_compute; split; [discriminate|reflexivity]).
  assert (0 < length (outputs one_slot))%nat as Hslot by (vm_compute; lia).
  split; [vm_compute; reflexivity|].
  split; [exact Hrange|]. split; [exact Hslot|].
  split; [vm_compute; lia|].
  apply (populated_through_handle_is_released test_platform 4096 constructed_object
           constructed_world one_slot populated_schema).
  - vm_compute; reflexivity.
  - exact Hrange.
  - exact Hslot.
  - vm_compute; lia.
Defined.

Lemma make_never_reports_error_witness :
  allocator exhausted_platform empty_world = None /\
  (forall e : Error,
      fst (Schema_make exhausted_platform [] empty_world) <> Ok (MakeError e)) /\
  calls (snd (Schema_make exhausted_platform [] empty_world)) = calls empty_world /\
  foreign (snd (Schema_make exhausted_platform [] empty_world)) = foreign empty_world /\
  Schema_make exhausted_platform [] empty_world = (Raise BadAlloc, empty_world).
Proof.
  split; [reflexivity|].
  destruct (make_never_reports_error exhausted_platform [] empty_world)
    as (Hnever & Hcalls & Hforeign & Hraise).
  split; [exact Hnever|]. split; [exact Hcalls|]. split; [exact Hforeign|].
  apply Hraise. reflexivity.
Defined.

Lemma make_then_teardown_is_silent_witness :
  allocator test_platform empty_world = Some 4096 /\
  bind (Schema_make test_platform [])
       (fun r => match r with
                 | MakeProxy proxy => Schema_dtor test_platform proxy
                 | MakeError _ => ret tt
                 end) empty_world
  = (Ok tt, snd (Schema_make test_platform [] empty_world)) /\
  calls (snd (Schema_make test_platform [] empty_world)) = calls empty_world.
Proof.
  split; [reflexivity|].
  apply (make_then_teardown_is_silent test_platform [] empty_world 4096).
  reflexivity.
Defined.

Lemma make_twice_gives_distinct_instances_witness :
  allocator paging_platform empty_world = Some 4096 /\
  heap empty_world !! 4096 = None /\
  allocator paging_platform (snd (Schema_make paging_platform [] empty_world)) = Some 8192 /\
  heap (snd (Schema_make paging_platform [] empty_world)) !! 8192 = None /\
  exists w2,
    bind (Schema_make paging_platform [])
         (fun r1 => bind (Schema_make paging_platform [createScalar 1])
                         (fun r2 => ret (r1, r2))) empty_world
    = (Ok (MakeProxy 4096, MakeProxy 8192), w2) /\
    4096 <> 8192 /\
    live 4096 w2 /\
    live 8192 w2 /\
    heap w2 !! 4096 = heap (snd (Schema_make paging_platform [] empty_world)) !! 4096 /\
    (0 <= addressof_arrowSchema paging_platform 4096 < 2 ^ 64 ->
     0 <= addressof_arrowSchema paging_platform 8192 < 2 ^ 64 ->
     get_address paging_platform 4096 <> get_address paging_platform 8192).
Proof.
  split; [vm_compute; reflexivity|].
  split; [vm_compute; reflexivity|].
  split; [vm_compute; reflexivity|].
  split; [vm_compute; reflexivity|].
  apply (make_twice_gives_distinct_instances paging_platform [] [createScalar 1]
           empty_world 4096 8192); vm_compute; reflexivity.
Defined.

Lemma destroy_all_releases_each_once_witness :
  NoDup [8192; 4096] /\
  Forall (fun p => is_Some (heap two_instances !! p)) [8192; 4096] /\
  exists w',
    destroy_all paging_platform [8192; 4096] two_instances = (Ok tt, w') /\
    calls w' = calls two_instances ++ pending_releases paging_platform [8192; 4096] two_instances /\
    Forall (fun p => exists self', heap w' !! p = Some self' /\
                                   release (arrowSchema self') = NULL) [8192; 4096] /\
    (forall q, q ∉ [8192; 4096] -> heap w' !! q = heap two_instances !! q).
Proof.
  assert (NoDup [8192; 4096]) as Hnodup
    by (apply (bool_decide_unpack _); vm_compute; exact I).
  assert (Forall (fun p => is_Some (heap two_instances !! p)) [8192; 4096]) as Hlive
    by (apply (bool_decide_unpack _); vm_compute; exact I).
  split; [exact Hnodup|]. split; [exact Hlive|].
  exact (destroy_all_releases_each_once paging_platform [8192; 4096] two_instances
           Hnodup Hlive).
Defined.
